(** * tiny-logger: a shallow embedding of [tiny::Logger] and its properties

    The header [tiny-logger.h] holds one class, [Logger], with a process-wide
    configuration ([m_options]), a prompt builder ([m_preparePrompt]), a
    recursive placeholder formatter ([m_processArguments]) and two public
    entry points ([log], [logValue]) that write to [std::cout].

    The embedding keeps the shape of the header: [std::string] is [string],
    the two pieces of mutable process state (the static [m_options] and the
    stream [std::cout]) are threaded through a small state monad, and the
    [std::out_of_range] exceptions that [substr] and [replace] may raise are
    an outcome of that monad, so that "completes without an error" is a
    statement that can be proved rather than assumed. *)

From Stdlib Require Import String Ascii List Arith Lia ZArith Bool.
From Stdlib Require Import DecimalString.
Import ListNotations.

Local Open Scope string_scope.

(** ** [std::string] *)

Module StdString.

(** [std::string::npos] is modelled by [None]. *)

Definition size (s : string) : nat := String.length s.

(** The first [n] characters of [s] (all of it when it is shorter). *)
Fixpoint take (n : nat) (s : string) : string :=
  match n, s with
  | S n', String c s' => String c (take n' s')
  | _, _ => EmptyString
  end.

(** [s] without its first [n] characters. *)
Fixpoint drop (n : nat) (s : string) : string :=
  match n, s with
  | S n', String _ s' => drop n' s'
  | _, _ => s
  end.

(** [s.find(c)]: the position of the first [c] in [s]. *)
Fixpoint find_char (c : ascii) (s : string) : option nat :=
  match s with
  | EmptyString => None
  | String d s' =>
      if Ascii.eqb d c then Some 0 else option_map S (find_char c s')
  end.

(** [s] starts with [pat]. *)
Fixpoint starts_with (pat s : string) : bool :=
  match pat, s with
  | EmptyString, _ => true
  | String _ _, EmptyString => false
  | String a pat', String b s' => Ascii.eqb a b && starts_with pat' s'
  end.

(** [s.find(pat)]: the first position at which [pat] occurs in [s]. *)
Fixpoint find (pat s : string) : option nat :=
  if starts_with pat s then Some 0
  else match s with
       | EmptyString => None
       | String _ s' => option_map S (find pat s')
       end.

(** The only exception the string operations of the logger can raise. *)
Inductive exn : Type := out_of_range.

(** [s.substr(pos, len)]: raises [out_of_range] when [pos > size()]. *)
Definition substr (pos len : nat) (s : string) : exn + string :=
  if (size s <? pos)%nat then inl out_of_range else inr (take len (drop pos s)).

(** [s.substr(pos)]: to the end of the string. *)
Definition substr_from (pos : nat) (s : string) : exn + string :=
  if (size s <? pos)%nat then inl out_of_range else inr (drop pos s).

(** [s.replace(pos, len, str)]: raises [out_of_range] when [pos > size()];
    at most [size() - pos] characters are replaced. *)
Definition replace (pos len : nat) (str s : string) : exn + string :=
  if (size s <? pos)%nat then inl out_of_range
  else inr (take pos s ++ str ++ drop (pos + len) s).

End StdString.

Import StdString.

(** ** [std::ostream]

    The stream keeps what has been inserted since the last flush apart from
    what has been flushed: [operator<<] appends to [pending], [flush] moves
    [pending] to [flushed]. *)

Record ostream : Type := mkStream { flushed : string; pending : string }.

Definition stream_text (o : ostream) : string := flushed o ++ pending o.

Definition stream_put (s : string) (o : ostream) : ostream :=
  {| flushed := flushed o; pending := pending o ++ s |}.

Definition stream_flush (o : ostream) : ostream :=
  {| flushed := flushed o ++ pending o; pending := "" |}.

(** The line terminator [std::endl] inserts before flushing. *)
Definition newline : string := String "010" "".

(** ** What can be inserted into a stream

    [m_processArguments] is a template over the argument types: every type
    with an [operator<<] is accepted.  The class below is that requirement;
    the instances are the built-in insertions the logger is used with, under
    the stream's default format flags, and the one the header adds for
    classes derived from [Loggable]. *)

Class Insertable (T : Type) : Type := insertion : T -> string.

#[export] Instance Insertable_string : Insertable string := fun s => s.

#[export] Instance Insertable_char : Insertable ascii := fun c => String c "".

(** Without [std::boolalpha] a [bool] is inserted as [1] or [0]. *)
#[export] Instance Insertable_bool : Insertable bool :=
  fun b => if b then "1" else "0".

#[export] Instance Insertable_int : Insertable Z :=
  fun z => NilZero.string_of_int (Z.to_int z).

(** [class Loggable]: the pure virtual [toString]. *)
Class Loggable (T : Type) : Type := toString : T -> string.

(** [friend std::ostream& operator<<(std::ostream&, const Loggable&)]. *)
#[export] Instance Insertable_Loggable {T : Type} `{Loggable T} : Insertable T :=
  fun self => toString self.

(** One argument of a parameter pack: a value with its insertion. *)
Record Arg : Type := mkArg {
  arg_type : Type;
  arg_insertable : Insertable arg_type;
  arg_value : arg_type
}.

Definition arg {T : Type} `{Insertable T} (x : T) : Arg := mkArg T _ x.

(** The text [std::cout << next] inserts. *)
Definition render (a : Arg) : string :=
  @insertion (arg_type a) (arg_insertable a) (arg_value a).

(** ** [tiny::Logger] *)

Module Logger.

(** [enum Severity]. *)
Inductive Severity : Type := FATAL | ERROR | WARNING | INFO | TRACE.

(** The enumerators' values, used to index [m_severityStrings]. *)
Definition Severity_value (sev : Severity) : nat :=
  match sev with
  | FATAL => 0 | ERROR => 1 | WARNING => 2 | INFO => 3 | TRACE => 4
  end.

(** [struct Options], with its default member initialisers. *)
Record Options : Type := mkOptions { prompt : string; formatChar : ascii }.

Definition default_Options : Options :=
  {| prompt := ""; formatChar := "@"%char |}.

(** The escape character that opens the colour sequences. *)
Definition ESC : string := String "027" "".

(** [Logger::m_severityStrings]. *)
Definition m_severityStrings : list string :=
  [ ESC ++ "[1;31mFATAL" ++ ESC ++ "[0m";
    ESC ++ "[31mERROR" ++ ESC ++ "[0m";
    ESC ++ "[33mWARNING" ++ ESC ++ "[0m";
    ESC ++ "[34mINFO" ++ ESC ++ "[0m";
    "TRACE" ].

(** [m_severityStrings[sev]]. *)
Definition severityString (sev : Severity) : string :=
  nth (Severity_value sev) m_severityStrings "".

(** *** Process state and the monad of the member functions *)

(** The static [m_options] and [std::cout]. *)
Record State : Type := mkState { m_options : Options; cout : ostream }.

(** The state of a process before [main]: [m_options] is default
    constructed, nothing has been written. *)
Definition initial_State : State :=
  {| m_options := default_Options; cout := mkStream "" "" |}.

Inductive Outcome (A : Type) : Type :=
| Returns (a : A)
| Throws (e : exn).
Arguments Returns {A} a.
Arguments Throws {A} e.

Definition M (A : Type) : Type := State -> Outcome A * State.

Definition ret {A : Type} (a : A) : M A := fun st => (Returns a, st).

Definition bind {A B : Type} (m : M A) (k : A -> M B) : M B :=
  fun st =>
    match m st with
    | (Returns a, st') => k a st'
    | (Throws e, st') => (Throws e, st')
    end.

Declare Scope logger_scope.
Delimit Scope logger_scope with logger.
Notation "x <- m ;; k" := (bind m (fun x => k))
  (at level 61, m at next level, right associativity) : logger_scope.
Notation "m ;; k" := (bind m (fun _ => k))
  (at level 61, right associativity) : logger_scope.
Local Open Scope logger_scope.

(** A string operation that may raise. *)
Definition lift {A : Type} (r : exn + A) : M A :=
  fun st => match r with
            | inr a => (Returns a, st)
            | inl e => (Throws e, st)
            end.

Definition read_options : M Options := fun st => (Returns (m_options st), st).

Definition write_options (opts : Options) : M unit :=
  fun st => (Returns tt, {| m_options := opts; cout := cout st |}).

(** [std::cout << s]. *)
Definition cout_put (s : string) : M unit :=
  fun st =>
    (Returns tt, {| m_options := m_options st; cout := stream_put s (cout st) |}).

(** [std::cout << std::endl]. *)
Definition cout_endl : M unit :=
  fun st =>
    (Returns tt,
     {| m_options := m_options st;
        cout := stream_flush (stream_put newline (cout st)) |}).

(** *** Member functions *)

(** [static void initialise(const Options& opts = {"", '@'})]: the default
    argument is [default_Options]. *)
Definition initialise (opts : Options) : M unit := write_options opts.

Definition REPLACE_LEN : nat := 5.
Definition REPLACE_STR : string := "{sev}".

(** [static std::string m_preparePrompt(const Severity& sev)]. *)
Definition m_preparePrompt (sev : Severity) : M string :=
  opts <- read_options ;;
  if (size (prompt opts) <? REPLACE_LEN)%nat then ret (prompt opts)
  else
    match find REPLACE_STR (prompt opts) with
    | None => ret (prompt opts)
    | Some pos =>
        let temp := prompt opts in
        lift (replace pos REPLACE_LEN (severityString sev) temp)
    end.

(** [static std::string m_findNextFormatCharacter(const std::string&)]. *)
Definition m_findNextFormatCharacter (buffer : string) : M string :=
  opts <- read_options ;;
  match find_char (formatChar opts) buffer with
  | Some pos => lift (substr 0 pos buffer)
  | None => ret buffer
  end.

(** [m_processArguments(std::string& buffer, const T& next, Args&&...)]
    and its base case [m_processArguments(std::string& buffer)].  The
    buffer is passed by reference: the value returned is what the
    caller's string holds afterwards. *)
Fixpoint m_processArguments (buffer : string) (args : list Arg) : M string :=
  match args with
  | [] => cout_put buffer ;; ret buffer
  | next :: args' =>
      trimmed <- m_findNextFormatCharacter buffer ;;
      cout_put trimmed ;;
      if (size trimmed =? size buffer)%nat then ret buffer
      else
        cout_put (render next) ;;
        buffer' <- lift (substr_from (size trimmed + 1) buffer) ;;
        m_processArguments buffer' args'
  end.

(** [static void log(const Severity&, const std::string& fmt, Args&&...)]. *)
Definition log (sev : Severity) (fmt : string) (args : list Arg) : M unit :=
  p <- m_preparePrompt sev ;;
  cout_put p ;;
  let buffer := fmt in
  m_processArguments buffer args ;;
  cout_endl.

(** The loop [for (ii = 0; ii < len; ii++) format += "@ "]. *)
Fixpoint logValue_loop (len : nat) (format : string) : string :=
  match len with
  | 0 => format
  | S len' => logValue_loop len' (format ++ "@ ")
  end.

(** [static void logValue(const T& initial, Args&&... args)]. *)
Definition logValue (initial : Arg) (args : list Arg) : M unit :=
  let len := List.length args in
  let format := logValue_loop len "" in
  let format := format ++ "@" in
  m_processArguments format (initial :: args) ;;
  cout_endl.

End Logger.

Import Logger.
Local Open Scope logger_scope.

(** ** Helper macros

    [TL_FATAL(FMT, ...)] to [TL_TRACE(FMT, ...)] expand to [Logger::log] with
    the severity of their name, [TL_VALUE(...)] to [Logger::logValue]. *)

Definition TL_FATAL (FMT : string) (VA_ARGS : list Arg) : M unit :=
  log FATAL FMT VA_ARGS.

Definition TL_ERROR (FMT : string) (VA_ARGS : list Arg) : M unit :=
  log ERROR FMT VA_ARGS.

Definition TL_WARNING (FMT : string) (VA_ARGS : list Arg) : M unit :=
  log WARNING FMT VA_ARGS.

Definition TL_INFO (FMT : string) (VA_ARGS : list Arg) : M unit :=
  log INFO FMT VA_ARGS.

Definition TL_TRACE (FMT : string) (VA_ARGS : list Arg) : M unit :=
  log TRACE FMT VA_ARGS.

Definition TL_VALUE (initial : Arg) (VA_ARGS : list Arg) : M unit :=
  logValue initial VA_ARGS.

(** ** The test program's declarations *)

(** [constexpr const char* PROMPT] and [Logger::Options opts{PROMPT}]. *)
Definition PROMPT : string := " * tiny ({sev}) | ".

Definition opts : Options := {| prompt := PROMPT; formatChar := "@"%char |}.

(** [class TestLoggable : public Loggable]. *)
Inductive TestLoggable : Type := test.

#[export] Instance TestLoggable_toString : Loggable TestLoggable :=
  fun _ => ESC ++ "[35m[This is a my internal value]" ++ ESC ++ "[0m".

(** * Vocabulary of the properties *)

(** ** Occurrences *)

(** [pat] occurs somewhere in [s]. *)
Definition occurs (pat s : string) : Prop :=
  exists pre post, s = pre ++ pat ++ post.

(** [s] splits as [pre ++ pat ++ post] and no occurrence of [pat] in [s]
    starts before this one. *)
Definition first_occurrence (pat s pre post : string) : Prop :=
  s = pre ++ pat ++ post /\
  forall pre' post', s = pre' ++ pat ++ post' -> size pre <= size pre'.

(** The number of characters [c] in [s]. *)
Fixpoint count_char (c : ascii) (s : string) : nat :=
  match s with
  | EmptyString => 0
  | String d s' => (if Ascii.eqb d c then 1 else 0) + count_char c s'
  end.

(** ** The formatter's description *)

(** The description of the formatter's result: the template in which the
    occurrences of the placeholder [c] are replaced, from the left, by the
    successive texts of [args]; once the texts run out the template is left
    as it is, and texts beyond the last placeholder are not used. *)
Fixpoint substitute (c : ascii) (template : string) (args : list string)
  : string :=
  match template with
  | EmptyString => EmptyString
  | String d rest =>
      if Ascii.eqb d c then
        match args with
        | a :: args' => a ++ substitute c rest args'
        | [] => String d (substitute c rest [])
        end
      else String d (substitute c rest args)
  end.

(** ** Process states *)

(** The state after [text] has been inserted into [std::cout]. *)
Definition inserted (text : string) (st : State) : State :=
  {| m_options := m_options st; cout := stream_put text (cout st) |}.

(** The state after [text], a line terminator and a flush. *)
Definition line_written (text : string) (st : State) : State :=
  {| m_options := m_options st;
     cout := {| flushed := stream_text (cout st) ++ text ++ newline;
                pending := "" |} |}.

(** The text a computation inserts, observed on an empty stream. *)
Definition output_of {A : Type} (m : M A) (opts : Options) : string :=
  stream_text (cout (snd (m {| m_options := opts; cout := mkStream "" "" |}))).

(** The process state in which [prompt] and [formatChar] are configured and
    nothing has been written yet. *)
Definition configured_State (prompt : string) (formatChar : ascii) : State :=
  {| m_options := {| prompt := prompt; formatChar := formatChar |};
     cout := mkStream "" "" |}.

(** ** Programs: sequences of calls to the public interface *)

Inductive Call : Type :=
| CallInitialise (opts : Options)
| CallLog (sev : Severity) (fmt : string) (args : list Arg)
| CallLogValue (initial : Arg) (args : list Arg).

Definition call (c : Call) : M unit :=
  match c with
  | CallInitialise opts => initialise opts
  | CallLog sev fmt args => log sev fmt args
  | CallLogValue initial args => logValue initial args
  end.

(** The calls of a program, in order; an exception ends the program. *)
Fixpoint run (calls : list Call) : M unit :=
  match calls with
  | [] => ret tt
  | c :: calls' => call c ;; run calls'
  end.

(** The configuration a program has set last: that of its last
    [initialise], the default one when it has none. *)
Fixpoint configured (current : Options) (calls : list Call) : Options :=
  match calls with
  | [] => current
  | CallInitialise opts :: calls' => configured opts calls'
  | _ :: calls' => configured current calls'
  end.

(** The template [logValue] builds for [len] trailing arguments. *)
Fixpoint value_template (len : nat) : string :=
  match len with
  | 0 => "@"
  | S len' => "@ " ++ value_template len'
  end.

(** * Facts about the string operations *)

Section StringFacts.

Lemma append_nil_r (s : string) : s ++ "" = s.
Proof. induction s as [|c s IH]; simpl; [reflexivity | now rewrite IH]. Qed.

Lemma append_assoc (a b c : string) : (a ++ b) ++ c = a ++ b ++ c.
Proof. induction a as [|x a IH]; simpl; [reflexivity | now rewrite IH]. Qed.

Lemma size_append (a b : string) : size (a ++ b) = size a + size b.
Proof. induction a as [|x a IH]; simpl; [reflexivity | now rewrite IH]. Qed.

Lemma size_take (n : nat) (s : string) : n <= size s -> size (take n s) = n.
Proof.
  revert s; induction n as [|n IH]; intros [|c s]; simpl; intros Hn;
    try reflexivity; try lia.
  rewrite IH; [reflexivity | lia].
Qed.

Lemma take_append (a b : string) : take (size a) (a ++ b) = a.
Proof. induction a as [|x a IH]; simpl; [now destruct b | now rewrite IH]. Qed.

Lemma drop_append (a b : string) (n : nat) :
  drop (size a + n) (a ++ b) = drop n b.
Proof. induction a as [|x a IH]; simpl; [reflexivity | exact IH]. Qed.

End StringFacts.

(** ** Facts about [find] *)

Section FindFacts.

Lemma starts_with_append (pat t : string) : starts_with pat (pat ++ t) = true.
Proof.
  induction pat as [|a pat IH]; simpl; [reflexivity |].
  now rewrite Ascii.eqb_refl, IH.
Qed.

Lemma starts_with_split (pat s : string) :
  starts_with pat s = true -> s = pat ++ drop (size pat) s.
Proof.
  revert s; induction pat as [|a pat IH]; intros s H; simpl in *.
  - reflexivity.
  - destruct s as [|b s]; [discriminate |].
    apply andb_true_iff in H as [Hab Hrest].
    apply Ascii.eqb_eq in Hab as ->. simpl. f_equal. now apply IH.
Qed.

Lemma find_unfold (pat s : string) :
  find pat s =
  if starts_with pat s then Some 0
  else match s with
       | EmptyString => None
       | String _ s' => option_map S (find pat s')
       end.
Proof. destruct s; reflexivity. Qed.

(** [find] answers [npos] only when the pattern does not occur. *)
Lemma find_None (pat s : string) : find pat s = None -> ~ occurs pat s.
Proof.
  induction s as [|c s IH]; rewrite find_unfold;
    destruct (starts_with pat _) eqn:Hsw; try discriminate;
    intros Hf (pre & post & Heq).
  - destruct pre; simpl in Heq;
      [rewrite Heq, starts_with_append in Hsw|]; discriminate.
  - destruct pre as [|d pre]; simpl in Heq.
    + rewrite Heq, starts_with_append in Hsw; discriminate.
    + injection Heq as _ Heq.
      destruct (find pat s); [discriminate |].
      apply IH; [reflexivity | now exists pre, post].
Qed.

(** A position answered by [find] is that of the first occurrence. *)
Lemma find_Some (pat s : string) (pos : nat) :
  find pat s = Some pos ->
  pos <= size s /\
  first_occurrence pat s (take pos s) (drop (pos + size pat) s).
Proof.
  revert pos; induction s as [|c s IH]; intros pos; rewrite find_unfold;
    destruct (starts_with pat _) eqn:Hsw; try discriminate.
  - intros [= <-]. split; [simpl; lia |]. split.
    + now apply starts_with_split.
    + intros; simpl; lia.
  - intros [= <-]. split; [simpl; lia |]. split.
    + now apply starts_with_split.
    + intros; simpl; lia.
  - destruct (find pat s) as [pos'|] eqn:Hf; [|discriminate].
    intros [= <-]. destruct (IH pos' eq_refl) as (Hle & Hsplit & Hleast).
    split; [simpl; lia |]. split.
    + simpl. now rewrite <- Hsplit.
    + intros pre' post' Heq. destruct pre' as [|d pre']; simpl in Heq.
      * rewrite Heq, starts_with_append in Hsw; discriminate.
      * injection Heq as _ Heq. apply Hleast in Heq.
        simpl. rewrite size_take by lia. simpl in Heq.
        rewrite size_take in Heq by lia. lia.
Qed.

(** The first occurrence is where [find] stops. *)
Lemma find_first_occurrence (pat s pre post : string) :
  first_occurrence pat s pre post -> find pat s = Some (size pre).
Proof.
  intros [Hsplit Hleast].
  destruct (find pat s) as [pos|] eqn:Hf.
  - destruct (find_Some _ _ _ Hf) as (Hle & Hsplit' & Hleast').
    f_equal.
    apply Hleast in Hsplit'. apply Hleast' in Hsplit.
    rewrite size_take in * by lia. lia.
  - exfalso. apply (find_None _ _ Hf). now exists pre, post.
Qed.

Lemma find_char_None (c : ascii) (s : string) :
  find_char c s = None -> ~ occurs (String c "") s.
Proof.
  induction s as [|d s IH]; simpl; intros Hf (pre & post & Heq).
  - destruct pre; discriminate.
  - destruct (Ascii.eqb d c) eqn:Hdc; [discriminate |].
    destruct pre as [|e pre]; simpl in Heq; injection Heq as -> Heq.
    + now rewrite Ascii.eqb_refl in Hdc.
    + destruct (find_char c s); [discriminate |].
      apply IH; [reflexivity | now exists pre, post].
Qed.

Lemma find_char_Some (c : ascii) (s : string) (pos : nat) :
  find_char c s = Some pos ->
  pos < size s /\
  s = take pos s ++ String c (drop (pos + 1) s) /\
  find_char c (take pos s) = None.
Proof.
  revert pos; induction s as [|d s IH]; simpl; intros pos; [discriminate |].
  destruct (Ascii.eqb d c) eqn:Hdc.
  - intros [= <-]. apply Ascii.eqb_eq in Hdc as ->. simpl.
    repeat split; lia.
  - destruct (find_char c s) as [pos'|] eqn:Hf; [|discriminate].
    intros [= <-]. destruct (IH pos' eq_refl) as (Hlt & Hsplit & Hnone).
    simpl. rewrite Hdc, Hnone. repeat split; [lia |].
    now rewrite <- Hsplit.
Qed.

End FindFacts.

(** ** Facts about the description of the formatter *)

Section SubstituteFacts.

Variable c : ascii.

Lemma substitute_nil (template : string) : substitute c template [] = template.
Proof.
  induction template as [|d t IH]; simpl; [reflexivity |].
  rewrite IH. now destruct (Ascii.eqb d c).
Qed.

Lemma substitute_no_placeholder (template : string) (args : list string) :
  find_char c template = None -> substitute c template args = template.
Proof.
  induction template as [|d t IH]; simpl; [reflexivity |].
  destruct (Ascii.eqb d c); [discriminate |].
  destruct (find_char c t); [discriminate |].
  intros _. now rewrite IH.
Qed.

Lemma substitute_at_placeholder (template : string) (pos : nat)
      (a : string) (args : list string) :
  find_char c template = Some pos ->
  substitute c template (a :: args) =
  take pos template ++ a ++ substitute c (drop (pos + 1) template) args.
Proof.
  revert pos; induction template as [|d t IH]; simpl; intros pos;
    [discriminate |].
  destruct (Ascii.eqb d c).
  - now intros [= <-].
  - destruct (find_char c t) as [pos'|]; [|discriminate].
    intros [= <-]. simpl. now rewrite (IH pos' eq_refl).
Qed.

(** When [head] holds as many placeholders as there are texts, what follows
    it is out of the substitution's reach. *)
Lemma substitute_append (head rest : string) (args : list string) :
  count_char c head = List.length args ->
  substitute c (head ++ rest) args = substitute c head args ++ rest.
Proof.
  revert args; induction head as [|d head IH]; intros args; simpl.
  - destruct args; [|discriminate]. intros _. apply substitute_nil.
  - destruct (Ascii.eqb d c); simpl.
    + destruct args as [|a args]; [discriminate |].
      intros [= Hn]. now rewrite IH, append_assoc.
    + intros Hn. now rewrite IH.
Qed.

End SubstituteFacts.

(** * Runs of the member functions *)

Section Runs.

Lemma inserted_inserted (a b : string) (st : State) :
  inserted b (inserted a st) = inserted (a ++ b) st.
Proof.
  unfold inserted, stream_put; simpl. now rewrite append_assoc.
Qed.

Lemma endl_inserted (text : string) (st : State) :
  cout_endl (inserted text st) = (Returns tt, line_written text st).
Proof.
  unfold cout_endl, inserted, line_written, stream_flush, stream_put,
    stream_text; simpl.
  now rewrite !append_assoc.
Qed.

(** [m_findNextFormatCharacter] never raises and leaves the state alone. *)
Lemma m_findNextFormatCharacter_run (buffer : string) (st : State) :
  m_findNextFormatCharacter buffer st =
  (Returns match find_char (formatChar (m_options st)) buffer with
           | Some pos => take pos buffer
           | None => buffer
           end, st).
Proof.
  unfold m_findNextFormatCharacter, bind, read_options.
  destruct (find_char _ buffer) as [pos|]; reflexivity.
Qed.

(** The formatter never raises, inserts the substituted template and keeps
    the configuration. *)
Lemma m_processArguments_run (args : list Arg) :
  forall (buffer : string) (st : State),
  exists buffer',
    m_processArguments buffer args st =
    (Returns buffer',
     inserted (substitute (formatChar (m_options st)) buffer (map render args))
              st).
Proof.
  induction args as [|next args IH]; intros buffer st.
  - exists buffer. simpl. now rewrite substitute_nil.
  - cbn [m_processArguments map]. unfold bind at 1.
    rewrite m_findNextFormatCharacter_run.
    destruct (find_char _ buffer) as [pos|] eqn:Hf.
    + destruct (find_char_Some _ _ _ Hf) as (Hlt & Hsplit & Hnone).
      unfold bind at 1, cout_put at 1. fold (inserted (take pos buffer) st).
      rewrite size_take by lia.
      replace (pos =? size buffer)%nat with false
        by (symmetry; apply Nat.eqb_neq; lia).
      unfold bind at 1, cout_put at 1.
      fold (inserted (render next) (inserted (take pos buffer) st)).
      unfold bind at 1, lift, substr_from.
      replace (size buffer <? pos + 1)%nat with false
        by (symmetry; apply Nat.ltb_ge; lia).
      destruct (IH (drop (pos + 1) buffer)
                   (inserted (render next) (inserted (take pos buffer) st)))
        as [buffer' Hrun].
      exists buffer'. rewrite Hrun. f_equal.
      rewrite !inserted_inserted. cbn [inserted m_options].
      rewrite (substitute_at_placeholder _ _ _ _ _ Hf).
      now rewrite ?append_assoc.
    + exists buffer.
      unfold bind, cout_put. fold (inserted buffer st).
      rewrite Nat.eqb_refl. unfold ret.
      now rewrite substitute_no_placeholder.
Qed.

(** [m_preparePrompt] never raises and leaves the state alone. *)
Lemma m_preparePrompt_run (sev : Severity) (st : State) :
  exists p, m_preparePrompt sev st = (Returns p, st).
Proof.
  unfold m_preparePrompt, bind, read_options.
  destruct (_ <? _)%nat; [now eexists |].
  destruct (find _ _) as [pos|] eqn:Hf; [|now eexists].
  apply find_Some in Hf as [Hle _].
  unfold lift, replace.
  replace (size _ <? pos)%nat with false
    by (symmetry; apply Nat.ltb_ge; exact Hle).
  now eexists.
Qed.

End Runs.

(** ** Runs of the public interface *)

Section PublicRuns.

Lemma output_of_format (fmt : string) (args : list Arg) (opts : Options) :
  output_of (m_processArguments fmt args) opts =
  substitute (formatChar opts) fmt (map render args).
Proof.
  unfold output_of.
  destruct (m_processArguments_run args fmt
              {| m_options := opts; cout := mkStream "" "" |}) as [b ->].
  reflexivity.
Qed.

Lemma log_run (sev : Severity) (fmt : string) (args : list Arg) (st : State) :
  exists p,
    m_preparePrompt sev st = (Returns p, st) /\
    log sev fmt args st =
    (Returns tt,
     line_written
       (p ++ substitute (formatChar (m_options st)) fmt (map render args)) st).
Proof.
  destruct (m_preparePrompt_run sev st) as [p Hp].
  exists p. split; [exact Hp |].
  unfold log. unfold bind at 1. rewrite Hp.
  unfold bind at 1, cout_put at 1. fold (inserted p st).
  unfold bind.
  destruct (m_processArguments_run args fmt (inserted p st)) as [b ->].
  rewrite inserted_inserted. apply endl_inserted.
Qed.

Lemma logValue_loop_template (len : nat) (format : string) :
  logValue_loop len format ++ "@" = format ++ value_template len.
Proof.
  revert format; induction len as [|len IH]; intros format; simpl.
  - reflexivity.
  - now rewrite IH, append_assoc.
Qed.

Lemma logValue_run (initial : Arg) (args : list Arg) (st : State) :
  logValue initial args st =
  (Returns tt,
   line_written
     (substitute (formatChar (m_options st)) (value_template (List.length args))
                 (map render (initial :: args))) st).
Proof.
  unfold logValue, bind.
  rewrite logValue_loop_template. cbn [append].
  destruct (m_processArguments_run (initial :: args)
              (value_template (List.length args)) st) as [b ->].
  apply endl_inserted.
Qed.

(** With the placeholder ['@'] the values come out separated by spaces. *)
Lemma substitute_value_template (a : string) (texts : list string) :
  substitute "@" (value_template (List.length texts)) (a :: texts) =
  String.concat " " (a :: texts).
Proof.
  revert a; induction texts as [|b texts IH]; intros a.
  - simpl. now rewrite append_nil_r.
  - cbn [List.length value_template]. cbn [append substitute].
    cbn [Ascii.eqb Bool.eqb]. rewrite IH. reflexivity.
Qed.

Lemma logValue_at_sign (initial : Arg) (args : list Arg) (st : State) :
  formatChar (m_options st) = "@"%char ->
  logValue initial args st =
  (Returns tt,
   line_written (String.concat " " (map render (initial :: args))) st).
Proof.
  intros Hc. rewrite logValue_run, Hc. cbn [map].
  rewrite <- (length_map render args).
  now rewrite substitute_value_template.
Qed.

Lemma find_char_value_template (c : ascii) (len : nat) :
  c <> "@"%char -> c <> " "%char -> find_char c (value_template len) = None.
Proof.
  intros Hat Hsp.
  induction len as [|len IH]; cbn [value_template append find_char].
  - destruct (Ascii.eqb_spec "@" c); [congruence | reflexivity].
  - destruct (Ascii.eqb_spec "@" c); [congruence |].
    destruct (Ascii.eqb_spec " " c); [congruence |].
    now rewrite IH.
Qed.

(** With any placeholder other than ['@'] and the space, the template
    itself comes out and the values are lost. *)
Lemma logValue_other_placeholder (initial : Arg) (args : list Arg) (st : State) :
  formatChar (m_options st) <> "@"%char ->
  formatChar (m_options st) <> " "%char ->
  logValue initial args st =
  (Returns tt, line_written (value_template (List.length args)) st).
Proof.
  intros Hat Hsp. rewrite logValue_run.
  now rewrite substitute_no_placeholder
    by (apply find_char_value_template; assumption).
Qed.

Lemma call_run (c : Call) (st : State) :
  exists st',
    call c st = (Returns tt, st') /\
    m_options st' = configured (m_options st) [c].
Proof.
  destruct c as [opts | sev fmt args | initial args]; simpl.
  - eexists; split; reflexivity.
  - destruct (log_run sev fmt args st) as (p & _ & ->).
    eexists; split; reflexivity.
  - rewrite logValue_run. eexists; split; reflexivity.
Qed.

Lemma run_configured (calls : list Call) :
  forall st, exists st',
    run calls st = (Returns tt, st') /\
    m_options st' = configured (m_options st) calls.
Proof.
  induction calls as [|c calls IH]; intros st.
  - exists st. now split.
  - cbn [run]. unfold bind.
    destruct (call_run c st) as (st1 & -> & Hopts).
    destruct (IH st1) as (st' & -> & Hopts').
    exists st'. split; [reflexivity |].
    rewrite Hopts', Hopts. now destruct c.
Qed.

End PublicRuns.

(** * The properties of the logger *)

(** C1, where the code departs from it.  Under the default placeholder
    [logValue(1, 2, 3)] writes the line [1 2 3]; once the placeholder is
    configured as ['#'] the template is still made of ['@'], holds no
    placeholder, and is written out in place of the three values. *)
Theorem logValue_ignores_formatChar :
  logValue (arg 1%Z) [arg 2%Z; arg 3%Z] initial_State =
  (Returns tt,
   {| m_options := default_Options;
      cout := mkStream ("1 2 3" ++ newline) "" |}) /\
  (initialise {| prompt := ""; formatChar := "#" |} ;;
   logValue (arg 1%Z) [arg 2%Z; arg 3%Z]) initial_State =
  (Returns tt,
   {| m_options := {| prompt := ""; formatChar := "#" |};
      cout := mkStream ("@ @ @" ++ newline) "" |}).
Proof. split; reflexivity. Qed.

(** C2.  For every template and argument list the formatter returns
    normally, and what it inserts into the stream is the template with the
    occurrences of the configured placeholder replaced, from the left, by
    the texts of the successive arguments until placeholders or arguments
    run out; with placeholder ['@'], the template [a@b@c] and the arguments
    [X], [Y] give [aXbYc]. *)
Theorem format_substitutes_left_to_right :
  (forall (buffer : string) (args : list Arg) (st : State),
     exists buffer',
       m_processArguments buffer args st =
       (Returns buffer',
        inserted (substitute (formatChar (m_options st)) buffer
                             (map render args)) st)) /\
  output_of (m_processArguments "a@b@c" [arg "X"; arg "Y"]) default_Options
  = "aXbYc".
Proof.
  split; [|reflexivity].
  intros buffer args st. apply m_processArguments_run.
Qed.

(** C3.  [log] returns normally; the stream then holds, all flushed, what
    it held before followed by the prompt [m_preparePrompt] returns for the
    severity, the text the formatter inserts for the template and the
    arguments, and a line terminator. *)
Theorem log_emits_prompt_format_newline
        (sev : Severity) (fmt : string) (args : list Arg) (st : State) :
  exists p,
    m_preparePrompt sev st = (Returns p, st) /\
    log sev fmt args st =
    (Returns tt,
     {| m_options := m_options st;
        cout :=
          {| flushed :=
               stream_text (cout st) ++
               (p ++ output_of (m_processArguments fmt args) (m_options st)) ++
               newline;
             pending := "" |} |}).
Proof.
  destruct (log_run sev fmt args st) as (p & Hp & Hlog).
  exists p. split; [exact Hp |].
  now rewrite Hlog, output_of_format.
Qed.

(** C4, as the code has it.  When the first occurrence of the marker in the
    configured prompt is preceded by [pre] and followed by [post], the prompt
    built is [pre], the display string of the severity, and [post] as it
    is, later markers included.  The display string of [INFO] carries its
    colour sequences, so the prompt [{sev}-{sev}] gives [INFO] between the
    sequences [ESC[34m] and [ESC[0m], followed by [-{sev}]. *)
Theorem prompt_replaces_first_marker_only
        (sev : Severity) (pre post : string) (st : State) :
  first_occurrence REPLACE_STR (prompt (m_options st)) pre post ->
  m_preparePrompt sev st = (Returns (pre ++ severityString sev ++ post), st).
Proof.
  intros Hfirst. pose proof (find_first_occurrence _ _ _ _ Hfirst) as Hf.
  destruct Hfirst as [Hsplit _].
  unfold m_preparePrompt, bind, read_options.
  rewrite Hf.
  replace (size (prompt (m_options st)) <? REPLACE_LEN)%nat with false.
  2:{ symmetry; apply Nat.ltb_ge. rewrite Hsplit, !size_append.
      unfold REPLACE_LEN, REPLACE_STR; simpl; lia. }
  unfold lift, replace.
  replace (size (prompt (m_options st)) <? size pre)%nat with false.
  2:{ symmetry; apply Nat.ltb_ge. rewrite Hsplit, size_append. lia. }
  rewrite Hsplit at 1 2. rewrite take_append, drop_append.
  reflexivity.
Qed.

Lemma prompt_replaces_first_marker_only_witness :
  first_occurrence REPLACE_STR "{sev}-{sev}" "" "-{sev}" /\
  m_preparePrompt INFO (configured_State "{sev}-{sev}" "@") =
  (Returns (ESC ++ "[34mINFO" ++ ESC ++ "[0m-{sev}"),
   configured_State "{sev}-{sev}" "@").
Proof.
  assert (H : first_occurrence REPLACE_STR "{sev}-{sev}" "" "-{sev}").
  { split; [reflexivity | intros; simpl; lia]. }
  split; [exact H |].
  exact (prompt_replaces_first_marker_only
           INFO "" "-{sev}" (configured_State "{sev}-{sev}" "@") H).
Defined.

(** C4, as the specification words it: the prompt built from [{sev}-{sev}]
    for [INFO] is not the bare text [INFO-{sev}]. *)
Lemma prompt_INFO_is_styled :
  fst (m_preparePrompt INFO (configured_State "{sev}-{sev}" "@"))
  <> Returns "INFO-{sev}".
Proof. vm_compute. discriminate. Qed.

(** C5.  When the configured placeholder does not occur in the template
    and at least one argument is given, the formatter inserts the whole
    template as it is, uses no argument and returns normally. *)
Theorem format_without_placeholder
        (buffer : string) (next : Arg) (args : list Arg) (st : State) :
  ~ occurs (String (formatChar (m_options st)) "") buffer ->
  m_processArguments buffer (next :: args) st =
  (Returns buffer, inserted buffer st).
Proof.
  intros Hno.
  assert (Hf : find_char (formatChar (m_options st)) buffer = None).
  { destruct (find_char _ buffer) as [pos|] eqn:Hf; [|reflexivity].
    exfalso. apply Hno.
    destruct (find_char_Some _ _ _ Hf) as (_ & Hsplit & _).
    now exists (take pos buffer), (drop (pos + 1) buffer). }
  cbn [m_processArguments]. unfold bind at 1.
  rewrite m_findNextFormatCharacter_run, Hf.
  unfold bind, cout_put. now rewrite Nat.eqb_refl.
Qed.

Lemma format_without_placeholder_witness :
  ~ occurs "@" "no placeholders here" /\
  m_processArguments "no placeholders here" [arg "X"] initial_State =
  (Returns "no placeholders here",
   inserted "no placeholders here" initial_State).
Proof.
  assert (H : ~ occurs "@" "no placeholders here")
    by (apply find_char_None; reflexivity).
  split; [exact H |].
  exact (format_without_placeholder
           "no placeholders here" (arg "X") [] initial_State H).
Defined.

(** C6.  For every severity, when the marker [{sev}] does not occur in the
    configured prompt, [m_preparePrompt] returns the prompt unchanged. *)
Theorem prompt_without_marker (sev : Severity) (st : State) :
  ~ occurs REPLACE_STR (prompt (m_options st)) ->
  m_preparePrompt sev st = (Returns (prompt (m_options st)), st).
Proof.
  intros Hno. unfold m_preparePrompt, bind, read_options.
  destruct (_ <? _)%nat; [reflexivity |].
  destruct (find _ _) as [pos|] eqn:Hf; [|reflexivity].
  exfalso. apply Hno.
  destruct (find_Some _ _ _ Hf) as (_ & Hsplit & _).
  now exists (take pos (prompt (m_options st))),
             (drop (pos + size REPLACE_STR) (prompt (m_options st))).
Qed.

Lemma prompt_without_marker_witness :
  ~ occurs REPLACE_STR " * tiny {sev | " /\
  m_preparePrompt WARNING (configured_State " * tiny {sev | " "@") =
  (Returns " * tiny {sev | ", configured_State " * tiny {sev | " "@").
Proof.
  assert (H : ~ occurs REPLACE_STR " * tiny {sev | ")
    by (apply find_None; reflexivity).
  split; [exact H |].
  exact (prompt_without_marker WARNING
           (configured_State " * tiny {sev | " "@") H).
Defined.

(** C7.  For every severity, a configured prompt of fewer than five
    characters is returned unchanged, whatever it contains. *)
Theorem prompt_shorter_than_marker (sev : Severity) (st : State) :
  size (prompt (m_options st)) < 5 ->
  m_preparePrompt sev st = (Returns (prompt (m_options st)), st).
Proof.
  intros Hlt. unfold m_preparePrompt, bind, read_options.
  replace (_ <? _)%nat with true; [reflexivity |].
  symmetry; apply Nat.ltb_lt; exact Hlt.
Qed.

Lemma prompt_shorter_than_marker_witness :
  size "{sev" < 5 /\
  m_preparePrompt FATAL (configured_State "{sev" "@") =
  (Returns "{sev", configured_State "{sev" "@").
Proof.
  assert (H : size "{sev" < 5) by (simpl; lia).
  split; [exact H |].
  exact (prompt_shorter_than_marker FATAL (configured_State "{sev" "@") H).
Defined.

(** C8.  Whatever the process has done before, after any sequence of
    [initialise] calls followed by [initialise] with the default
    configuration, every later sequence of calls runs as it does in a
    process whose configuration is the one it was born with and whose
    stream holds the same text. *)
Theorem initialise_default_restores
        (cfgs : list Options) (later : list Call) (st : State) :
  run (map CallInitialise cfgs ++ CallInitialise default_Options :: later) st =
  run later {| m_options := m_options initial_State; cout := cout st |}.
Proof.
  revert st; induction cfgs as [|opts cfgs IH]; intros st.
  - reflexivity.
  - cbn [map app run call]. unfold bind, initialise, write_options.
    now rewrite IH.
Qed.

(** C9.  When the head of the template holds as many placeholders as there
    are arguments, the formatter returns normally and whatever follows the
    head is inserted as it is, placeholders included. *)
Theorem format_arguments_exhausted
        (head rest : string) (args : list Arg) (st : State) :
  count_char (formatChar (m_options st)) head = List.length args ->
  exists buffer',
    m_processArguments (head ++ rest) args st =
    (Returns buffer',
     inserted (substitute (formatChar (m_options st)) head (map render args)
               ++ rest) st).
Proof.
  intros Hcount.
  destruct (m_processArguments_run args (head ++ rest) st) as [b Hrun].
  exists b. rewrite Hrun.
  now rewrite substitute_append by (now rewrite length_map).
Qed.

Lemma format_arguments_exhausted_witness :
  count_char "@" "a@b" = List.length [arg "X"] /\
  exists buffer',
    m_processArguments ("a@b" ++ "@c@") [arg "X"] initial_State =
    (Returns buffer', inserted ("aXb" ++ "@c@") initial_State).
Proof.
  assert (H : count_char "@" "a@b" = List.length [arg "X"]) by reflexivity.
  split; [exact H |].
  exact (format_arguments_exhausted "a@b" "@c@" [arg "X"] initial_State H).
Defined.

(** C10.  [m_preparePrompt] leaves the whole process state as it found it,
    [log] and [logValue] leave the stored configuration as they found it,
    and after any program the stored configuration is the one of its last
    [initialise], the initial one when it has none. *)
Theorem logging_preserves_configuration :
  (forall sev st, snd (m_preparePrompt sev st) = st) /\
  (forall sev fmt args st,
     m_options (snd (log sev fmt args st)) = m_options st) /\
  (forall initial args st,
     m_options (snd (logValue initial args st)) = m_options st) /\
  (forall calls st,
     m_options (snd (run calls st)) = configured (m_options st) calls).
Proof.
  repeat split.
  - intros sev st. now destruct (m_preparePrompt_run sev st) as [p ->].
  - intros sev fmt args st.
    now destruct (log_run sev fmt args st) as (p & _ & ->).
  - intros initial args st. now rewrite logValue_run.
  - intros calls st.
    destruct (run_configured calls st) as (st' & Hrun & Hopts).
    rewrite Hrun. exact Hopts.
Qed.

(** * Further properties of the formatter *)

Section FormatterSteps.

Lemma count_char_append (c : ascii) (a b : string) :
  count_char c (a ++ b) = count_char c a + count_char c b.
Proof.
  induction a as [|d a IH]; simpl; [reflexivity |]. rewrite IH. lia.
Qed.

Lemma find_char_None_count (c : ascii) (s : string) :
  find_char c s = None -> count_char c s = 0.
Proof.
  induction s as [|d s IH]; simpl; [reflexivity |].
  destruct (Ascii.eqb d c); [discriminate |].
  destruct (find_char c s); [discriminate |]. intros _. now rewrite IH.
Qed.

Lemma find_char_Some_count (c : ascii) (s : string) (pos : nat) :
  find_char c s = Some pos ->
  count_char c s = S (count_char c (drop (pos + 1) s)).
Proof.
  intros Hf. destruct (find_char_Some _ _ _ Hf) as (_ & Hsplit & Hnone).
  rewrite Hsplit at 1. rewrite count_char_append.
  rewrite (find_char_None_count _ _ Hnone). simpl.
  now rewrite Ascii.eqb_refl.
Qed.

(** The base case of the formatter. *)
Lemma m_processArguments_nil (buffer : string) (st : State) :
  m_processArguments buffer [] st = (Returns buffer, inserted buffer st).
Proof. reflexivity. Qed.

(** The early return of the formatter. *)
Lemma m_processArguments_stop
      (buffer : string) (next : Arg) (args : list Arg) (st : State) :
  find_char (formatChar (m_options st)) buffer = None ->
  m_processArguments buffer (next :: args) st =
  (Returns buffer, inserted buffer st).
Proof.
  intros Hf. cbn [m_processArguments]. unfold bind at 1.
  rewrite m_findNextFormatCharacter_run, Hf.
  unfold bind, cout_put. now rewrite Nat.eqb_refl.
Qed.

(** One round of the formatter. *)
Lemma m_processArguments_step
      (buffer : string) (next : Arg) (args : list Arg) (st : State)
      (pos : nat) :
  find_char (formatChar (m_options st)) buffer = Some pos ->
  m_processArguments buffer (next :: args) st =
  m_processArguments (drop (pos + 1) buffer) args
    (inserted (take pos buffer ++ render next) st).
Proof.
  intros Hf. destruct (find_char_Some _ _ _ Hf) as (Hlt & _ & _).
  cbn [m_processArguments]. unfold bind at 1.
  rewrite m_findNextFormatCharacter_run, Hf.
  unfold bind at 1, cout_put at 1. fold (inserted (take pos buffer) st).
  rewrite size_take by lia.
  replace (pos =? size buffer)%nat with false
    by (symmetry; apply Nat.eqb_neq; lia).
  unfold bind at 1, cout_put at 1.
  fold (inserted (render next) (inserted (take pos buffer) st)).
  unfold bind at 1, lift, substr_from.
  replace (size buffer <? pos + 1)%nat with false
    by (symmetry; apply Nat.ltb_ge; lia).
  now rewrite inserted_inserted.
Qed.

Lemma substitute_firstn (c : ascii) (template : string) (args : list string) :
  substitute c template (firstn (count_char c template) args) =
  substitute c template args.
Proof.
  revert args; induction template as [|d t IH]; intros args; simpl;
    [reflexivity |].
  destruct (Ascii.eqb d c); simpl.
  - destruct args as [|a args]; simpl; [reflexivity | now rewrite IH].
  - now rewrite IH.
Qed.

Lemma substitute_split (c : ascii) (a b : string) (args1 args2 : list string) :
  count_char c a = List.length args1 ->
  substitute c (a ++ b) (args1 ++ args2) =
  substitute c a args1 ++ substitute c b args2.
Proof.
  revert args1; induction a as [|d a IH]; intros args1; simpl.
  - destruct args1; [reflexivity | discriminate].
  - destruct (Ascii.eqb d c); simpl.
    + destruct args1 as [|x args1]; [discriminate |].
      intros [= Hn]. simpl. now rewrite IH, append_assoc.
    + intros Hn. now rewrite IH.
Qed.

End FormatterSteps.

(** X1.  [m_findNextFormatCharacter] returns normally and leaves the
    process state alone; what it returns holds no placeholder and is either
    the whole buffer or the part of the buffer in front of a placeholder. *)
Theorem next_format_character_prefix (buffer : string) (st : State) :
  exists trimmed,
    m_findNextFormatCharacter buffer st = (Returns trimmed, st) /\
    ~ occurs (String (formatChar (m_options st)) "") trimmed /\
    (buffer = trimmed \/
     exists rest,
       buffer = trimmed ++ String (formatChar (m_options st)) rest).
Proof.
  rewrite m_findNextFormatCharacter_run.
  destruct (find_char _ buffer) as [pos|] eqn:Hf.
  - destruct (find_char_Some _ _ _ Hf) as (_ & Hsplit & Hnone).
    exists (take pos buffer). split; [reflexivity |].
    split; [now apply find_char_None |].
    right. now exists (drop (pos + 1) buffer).
  - exists buffer. split; [reflexivity |].
    split; [now apply find_char_None | now left].
Qed.

(** X2.  Without arguments [log] writes the prompt and then the message
    as it is, whatever the message contains, and ends the line. *)
Theorem log_without_arguments (sev : Severity) (fmt : string) (st : State) :
  exists p,
    m_preparePrompt sev st = (Returns p, st) /\
    log sev fmt [] st = (Returns tt, line_written (p ++ fmt) st).
Proof.
  destruct (log_run sev fmt [] st) as (p & Hp & Hlog).
  exists p. split; [exact Hp |].
  rewrite Hlog. cbn [map]. now rewrite substitute_nil.
Qed.

(** X3.  Arguments beyond the number of placeholders in the template have
    no effect: the formatter does with all of them what it does with the
    first [count_char c buffer] of them. *)
Theorem surplus_arguments_ignored (args : list Arg) :
  forall (buffer : string) (st : State),
    m_processArguments buffer args st =
    m_processArguments buffer
      (firstn (count_char (formatChar (m_options st)) buffer) args) st.
Proof.
  induction args as [|next args IH]; intros buffer st.
  - now rewrite firstn_nil.
  - destruct (find_char (formatChar (m_options st)) buffer) as [pos|] eqn:Hf.
    + rewrite (find_char_Some_count _ _ _ Hf). cbn [firstn].
      rewrite !(m_processArguments_step _ _ _ _ _ Hf).
      now rewrite IH.
    + rewrite (find_char_None_count _ _ Hf). cbn [firstn].
      now rewrite m_processArguments_stop, m_processArguments_nil.
Qed.

(** X4.  Formatting composes along the template: when the front part of a
    template holds as many placeholders as the first arguments, the text
    inserted is that for the front part with the first arguments followed
    by that for the rest with the remaining arguments. *)
Theorem format_composes
        (front back : string) (args1 args2 : list Arg) (st : State) :
  count_char (formatChar (m_options st)) front = List.length args1 ->
  exists buffer',
    m_processArguments (front ++ back) (args1 ++ args2) st =
    (Returns buffer',
     inserted
       (substitute (formatChar (m_options st)) front (map render args1) ++
        substitute (formatChar (m_options st)) back (map render args2)) st).
Proof.
  intros Hcount.
  destruct (m_processArguments_run (args1 ++ args2) (front ++ back) st)
    as [b Hrun].
  exists b. rewrite Hrun, map_app.
  now rewrite substitute_split by (now rewrite length_map).
Qed.

Lemma format_composes_witness :
  count_char "@" "a=@, " = List.length [arg 1%Z] /\
  exists buffer',
    m_processArguments ("a=@, " ++ "b=@") ([arg 1%Z] ++ [arg true])
      initial_State =
    (Returns buffer', inserted ("a=1, " ++ "b=1") initial_State).
Proof.
  assert (H : count_char "@" "a=@, " = List.length [arg 1%Z]) by reflexivity.
  split; [exact H |].
  exact (format_composes "a=@, " "b=@" [arg 1%Z] [arg true] initial_State H).
Defined.

(** X5.  The buffer the formatter leaves in its caller's string is the end
    of the template it was given; the part in front of it holds as many
    placeholders as arguments were used: the smaller of the number of
    arguments and the number of placeholders of the template. *)
Theorem format_consumes_buffer (args : list Arg) :
  forall (buffer : string) (st : State),
  exists consumed buffer',
    fst (m_processArguments buffer args st) = Returns buffer' /\
    buffer = consumed ++ buffer' /\
    count_char (formatChar (m_options st)) consumed =
    Nat.min (List.length args)
            (count_char (formatChar (m_options st)) buffer).
Proof.
  induction args as [|next args IH]; intros buffer st.
  - exists "", buffer. repeat split.
  - destruct (find_char (formatChar (m_options st)) buffer) as [pos|] eqn:Hf.
    + rewrite (m_processArguments_step _ _ _ _ _ Hf).
      destruct (IH (drop (pos + 1) buffer)
                   (inserted (take pos buffer ++ render next) st))
        as (consumed & buffer' & Hrun & Hsplit & Hcount).
      cbn [inserted m_options] in Hcount.
      destruct (find_char_Some _ _ _ Hf) as (_ & Hbuf & Hnone).
      exists (take pos buffer ++ String (formatChar (m_options st)) consumed),
             buffer'.
      split; [exact Hrun |]. split.
      * rewrite append_assoc. cbn [append]. now rewrite <- Hsplit.
      * rewrite count_char_append, (find_char_None_count _ _ Hnone).
        rewrite (find_char_Some_count _ _ _ Hf).
        cbn [count_char List.length]. rewrite Ascii.eqb_refl, Hcount.
        simpl. reflexivity.
    + rewrite m_processArguments_stop by exact Hf.
      exists "", buffer. repeat split.
      rewrite (find_char_None_count _ _ Hf). reflexivity.
Qed.

(** * Further properties of the prompt and of the public interface *)

Section PromptFacts.

Lemma append_inj_size (a a' b b' : string) :
  a ++ b = a' ++ b' -> size a = size a' -> a = a' /\ b = b'.
Proof.
  revert a'; induction a as [|x a IH]; intros [|x' a']; simpl;
    intros Heq Hlen; try discriminate.
  - now split.
  - injection Heq as -> Heq. injection Hlen as Hlen.
    destruct (IH _ Heq Hlen) as [-> ->]. now split.
Qed.

Lemma append_cancel_l (a b c : string) : a ++ b = a ++ c -> b = c.
Proof. intros H. now apply (append_inj_size a a b c). Qed.

Lemma append_cancel_r (a b c : string) : a ++ c = b ++ c -> a = b.
Proof.
  intros H. apply (append_inj_size a b c c); [exact H |].
  apply (f_equal size) in H. rewrite !size_append in H. lia.
Qed.

Lemma not_occurs_find_char (c : ascii) (s : string) :
  ~ occurs (String c "") s -> find_char c s = None.
Proof.
  intros Hno. destruct (find_char c s) as [pos|] eqn:Hf; [|reflexivity].
  exfalso. apply Hno.
  destruct (find_char_Some _ _ _ Hf) as (_ & Hsplit & _).
  now exists (take pos s), (drop (pos + 1) s).
Qed.

(** The prompt built when the marker occurs. *)
Lemma m_preparePrompt_marker
      (sev : Severity) (pre post : string) (st : State) :
  first_occurrence REPLACE_STR (prompt (m_options st)) pre post ->
  m_preparePrompt sev st = (Returns (pre ++ severityString sev ++ post), st).
Proof.
  intros Hfirst. pose proof (find_first_occurrence _ _ _ _ Hfirst) as Hf.
  destruct Hfirst as [Hsplit _].
  assert (Hsize : size pre + 5 <= size (prompt (m_options st))).
  { rewrite Hsplit, !size_append. unfold REPLACE_STR; simpl; lia. }
  unfold m_preparePrompt, bind, read_options. rewrite Hf.
  replace (size (prompt (m_options st)) <? REPLACE_LEN)%nat with false
    by (symmetry; apply Nat.ltb_ge; unfold REPLACE_LEN; lia).
  unfold lift, replace.
  replace (size (prompt (m_options st)) <? size pre)%nat with false
    by (symmetry; apply Nat.ltb_ge; lia).
  rewrite Hsplit at 1 2. now rewrite take_append, drop_append.
Qed.

(** The prompt built when the marker does not occur. *)
Lemma m_preparePrompt_plain (sev : Severity) (st : State) :
  ~ occurs REPLACE_STR (prompt (m_options st)) ->
  m_preparePrompt sev st = (Returns (prompt (m_options st)), st).
Proof.
  intros Hno. unfold m_preparePrompt, bind, read_options.
  destruct (_ <? _)%nat; [reflexivity |].
  destruct (find _ _) as [pos|] eqn:Hf; [|reflexivity].
  exfalso. apply Hno.
  destruct (find_Some _ _ _ Hf) as (_ & Hsplit & _).
  now exists (take pos (prompt (m_options st))),
             (drop (pos + size REPLACE_STR) (prompt (m_options st))).
Qed.

(** The prompt is a function of the configuration alone. *)
Lemma m_preparePrompt_options (sev : Severity) (st st2 : State) :
  m_options st = m_options st2 ->
  fst (m_preparePrompt sev st) = fst (m_preparePrompt sev st2).
Proof.
  intros H. unfold m_preparePrompt, bind, read_options. rewrite H.
  destruct (_ <? _)%nat; [reflexivity |].
  destruct (find _ _); [|reflexivity].
  unfold lift. now destruct (replace _ _ _ _).
Qed.

Lemma log_marker
      (sev : Severity) (fmt : string) (args : list Arg) (pre post : string)
      (st : State) :
  first_occurrence REPLACE_STR (prompt (m_options st)) pre post ->
  log sev fmt args st =
  (Returns tt,
   line_written
     ((pre ++ severityString sev ++ post) ++
      substitute (formatChar (m_options st)) fmt (map render args)) st).
Proof.
  intros Hfirst. destruct (log_run sev fmt args st) as (p & Hp & ->).
  rewrite (m_preparePrompt_marker _ _ _ _ Hfirst) in Hp.
  now injection Hp as <-.
Qed.

Lemma severityString_inj (a b : Severity) :
  severityString a = severityString b -> a = b.
Proof.
  destruct a, b; try reflexivity; intros H; vm_compute in H; discriminate.
Qed.

End PromptFacts.

(** X6.  Every severity indexes [m_severityStrings] within its bounds, no
    two severities share a display string, and no display string holds
    the marker [{sev}]. *)
Theorem severity_strings_table :
  (forall sev, Severity_value sev < List.length m_severityStrings) /\
  (forall a b, severityString a = severityString b -> a = b) /\
  (forall sev, ~ occurs REPLACE_STR (severityString sev)).
Proof.
  repeat split.
  - intros []; simpl; lia.
  - apply severityString_inj.
  - intros sev. apply find_None. now destruct sev.
Qed.

(** X7.  When the first marker of the configured prompt stands between
    [pre] and [post], each of the five severity macros writes one flushed
    line: [pre], the display string of the macro's severity, [post], and
    the message with its placeholders substituted. *)
Theorem severity_macros_lines
        (FMT : string) (VA_ARGS : list Arg) (pre post : string) (st : State) :
  first_occurrence REPLACE_STR (prompt (m_options st)) pre post ->
  let line sev :=
    (Returns tt,
     line_written
       ((pre ++ severityString sev ++ post) ++
        substitute (formatChar (m_options st)) FMT (map render VA_ARGS)) st)
  in
  TL_FATAL FMT VA_ARGS st = line FATAL /\
  TL_ERROR FMT VA_ARGS st = line ERROR /\
  TL_WARNING FMT VA_ARGS st = line WARNING /\
  TL_INFO FMT VA_ARGS st = line INFO /\
  TL_TRACE FMT VA_ARGS st = line TRACE.
Proof.
  intros Hfirst line. repeat split; now apply log_marker.
Qed.

Lemma severity_macros_lines_witness :
  first_occurrence REPLACE_STR PROMPT " * tiny (" ") | " /\
  TL_TRACE "Value: @" [arg 42%Z] {| m_options := opts; cout := mkStream "" "" |}
  = (Returns tt,
     {| m_options := opts;
        cout := mkStream (" * tiny (TRACE) | Value: 42" ++ newline) "" |}).
Proof.
  assert (H : first_occurrence REPLACE_STR PROMPT " * tiny (" ") | ").
  { apply (find_Some REPLACE_STR PROMPT 9). reflexivity. }
  split; [exact H |].
  exact (proj2 (proj2 (proj2 (proj2
           (severity_macros_lines "Value: @" [arg 42%Z] " * tiny (" ") | "
              {| m_options := opts; cout := mkStream "" "" |} H))))).
Defined.

Lemma value_template_repeat (len : nat) :
  value_template len = String.concat " " (repeat "@" (S len)).
Proof.
  induction len as [|len IH]; [reflexivity |].
  cbn [value_template]. rewrite IH. reflexivity.
Qed.

(** X8.  While the configured placeholder is ['@'], [logValue] (and so
    [TL_VALUE]) writes one flushed line: the texts of its values, in order,
    with one space between neighbours. *)
Theorem value_macro_joins_with_spaces
        (initial : Arg) (VA_ARGS : list Arg) (st : State) :
  formatChar (m_options st) = "@"%char ->
  TL_VALUE initial VA_ARGS st =
  (Returns tt,
   {| m_options := m_options st;
      cout :=
        {| flushed :=
             stream_text (cout st) ++
             String.concat " " (render initial :: map render VA_ARGS) ++
             newline;
           pending := "" |} |}).
Proof.
  intros Hc. unfold TL_VALUE. rewrite logValue_run, Hc. cbn [map].
  rewrite <- (length_map render VA_ARGS).
  now rewrite substitute_value_template.
Qed.

Lemma value_macro_joins_with_spaces_witness :
  formatChar (m_options initial_State) = "@"%char /\
  TL_VALUE (arg "Hello") [arg "World!"] initial_State =
  (Returns tt,
   {| m_options := default_Options;
      cout := mkStream ("Hello World!" ++ newline) "" |}).
Proof.
  assert (H : formatChar (m_options initial_State) = "@"%char) by reflexivity.
  split; [exact H |].
  exact (value_macro_joins_with_spaces
           (arg "Hello") [arg "World!"] initial_State H).
Defined.

(** X9.  While the configured placeholder is neither ['@'] nor the space,
    [logValue] writes none of its values: the line it writes is its own
    template, one ['@'] per value with spaces between them. *)
Theorem value_macro_other_placeholder
        (initial : Arg) (VA_ARGS : list Arg) (st : State) :
  formatChar (m_options st) <> "@"%char ->
  formatChar (m_options st) <> " "%char ->
  TL_VALUE initial VA_ARGS st =
  (Returns tt,
   {| m_options := m_options st;
      cout :=
        {| flushed :=
             stream_text (cout st) ++
             String.concat " " (repeat "@" (S (List.length VA_ARGS))) ++
             newline;
           pending := "" |} |}).
Proof.
  intros Hat Hsp. unfold TL_VALUE. rewrite logValue_run.
  rewrite substitute_no_placeholder
    by (apply find_char_value_template; assumption).
  now rewrite value_template_repeat.
Qed.

Lemma value_macro_other_placeholder_witness :
  "%"%char <> "@"%char /\ "%"%char <> " "%char /\
  TL_VALUE (arg 30%Z) [arg true; arg "#"%char] (configured_State "" "%") =
  (Returns tt,
   {| m_options := {| prompt := ""; formatChar := "%" |};
      cout := mkStream ("@ @ @" ++ newline) "" |}).
Proof.
  assert (H1 : "%"%char <> "@"%char) by discriminate.
  assert (H2 : "%"%char <> " "%char) by discriminate.
  split; [exact H1 |]. split; [exact H2 |].
  exact (value_macro_other_placeholder
           (arg 30%Z) [arg true; arg "#"%char] (configured_State "" "%")
           H1 H2).
Defined.

(** X10.  An object of a class derived from [Loggable], logged as the only
    argument, appears as the text its [toString] returns, at the place of
    the first placeholder of the message. *)
Theorem loggable_logged_as_toString
        {T : Type} `{Loggable T} (x : T)
        (sev : Severity) (pre post : string) (st : State) :
  ~ occurs (String (formatChar (m_options st)) "") pre ->
  exists p,
    m_preparePrompt sev st = (Returns p, st) /\
    log sev (pre ++ String (formatChar (m_options st)) post) [arg x] st =
    (Returns tt, line_written (p ++ pre ++ toString x ++ post) st).
Proof.
  intros Hno. apply not_occurs_find_char in Hno.
  destruct (log_run sev (pre ++ String (formatChar (m_options st)) post)
                    [arg x] st) as (p & Hp & ->).
  exists p. split; [exact Hp |]. do 3 f_equal.
  change (map render [arg x]) with (@nil string ++ [toString x])%list.
  rewrite substitute_split by (now apply find_char_None_count).
  rewrite substitute_nil. cbn [substitute].
  now rewrite Ascii.eqb_refl, substitute_nil.
Qed.

Lemma loggable_logged_as_toString_witness :
  ~ occurs "@" "Test value: " /\
  exists p,
    m_preparePrompt FATAL {| m_options := opts; cout := mkStream "" "" |} =
    (Returns p, {| m_options := opts; cout := mkStream "" "" |}) /\
    log FATAL ("Test value: " ++ "@") [arg test]
        {| m_options := opts; cout := mkStream "" "" |} =
    (Returns tt,
     line_written (p ++ "Test value: " ++ toString test ++ "")
                  {| m_options := opts; cout := mkStream "" "" |}).
Proof.
  assert (H : ~ occurs "@" "Test value: ")
    by (apply find_char_None; reflexivity).
  split; [exact H |].
  exact (loggable_logged_as_toString
           test FATAL "Test value: " ""
           {| m_options := opts; cout := mkStream "" "" |} H).
Defined.

Section ProgramFacts.

(** One call: it returns normally, and what it appends to the stream and
    the configuration it leaves are those observed on an empty stream. *)
Lemma call_frame (c : Call) (st : State) :
  exists st',
    call c st = (Returns tt, st') /\
    m_options st' =
    m_options (snd (call c {| m_options := m_options st;
                              cout := mkStream "" "" |})) /\
    stream_text (cout st') =
    stream_text (cout st) ++ output_of (call c) (m_options st) /\
    (pending (cout st) = "" -> pending (cout st') = "").
Proof.
  destruct c as [o | sev fmt args | initial args]; unfold output_of;
    cbn [call].
  - eexists. split; [reflexivity |]. cbn.
    repeat split; [now rewrite append_nil_r | auto].
  - destruct (log_run sev fmt args st) as (p & Hp & ->).
    destruct (log_run sev fmt args
                {| m_options := m_options st; cout := mkStream "" "" |})
      as (p2 & Hp2 & ->).
    assert (Hpp : p = p2).
    { pose proof (m_preparePrompt_options sev st
                    {| m_options := m_options st; cout := mkStream "" "" |}
                    eq_refl) as E.
      rewrite Hp, Hp2 in E. now injection E. }
    subst p2. eexists. split; [reflexivity |]. cbn.
    repeat split. now rewrite !append_nil_r.
  - rewrite !logValue_run. eexists. split; [reflexivity |]. cbn.
    repeat split. now rewrite !append_nil_r.
Qed.

Lemma run_frame (calls : list Call) :
  forall st, exists st',
    run calls st = (Returns tt, st') /\
    m_options st' =
    m_options (snd (run calls {| m_options := m_options st;
                                 cout := mkStream "" "" |})) /\
    stream_text (cout st') =
    stream_text (cout st) ++ output_of (run calls) (m_options st) /\
    (pending (cout st) = "" -> pending (cout st') = "").
Proof.
  induction calls as [|c calls IH]; intros st.
  - exists st. cbn. repeat split; [now rewrite append_nil_r | auto].
  - destruct (call_frame c st) as (st1 & Hc & Ho1 & Ht1 & Hp1).
    destruct (call_frame c {| m_options := m_options st;
                              cout := mkStream "" "" |})
      as (st1e & Hce & _ & _ & _).
    rewrite Hce in Ho1. cbn [snd] in Ho1.
    destruct (IH st1) as (st' & Hr & Ho & Ht & Hp).
    destruct (IH st1e) as (st'e & Hre & Hoe & Hte & _).
    exists st'. unfold output_of in *. cbn [run]. unfold bind.
    cbn [m_options] in *. rewrite Hc, Hce, Hr, Hre in *. cbn [snd] in *.
    repeat split.
    + rewrite Ho, Hoe, Ho1. reflexivity.
    + rewrite Ht, Ht1, Hte, Ho1, append_assoc. reflexivity.
    + auto.
Qed.

End ProgramFacts.

(** X11.  Every program of [initialise], [log] and [logValue] calls runs to
    its end without an exception, and only appends to the stream: the text
    of the stream afterwards is its text before followed by what the same
    program writes, under the same configuration, on an empty stream. *)
Theorem programs_only_append (calls : list Call) (st : State) :
  exists st',
    run calls st = (Returns tt, st') /\
    stream_text (cout st') =
    stream_text (cout st) ++ output_of (run calls) (m_options st).
Proof.
  destruct (run_frame calls st) as (st' & Hr & _ & Ht & _).
  now exists st'.
Qed.

(** X12.  The logger leaves nothing unflushed: when nothing is pending in
    the stream before a program, nothing is pending after it. *)
Theorem programs_leave_stream_flushed (calls : list Call) (st : State) :
  pending (cout st) = "" ->
  pending (cout (snd (run calls st))) = "".
Proof.
  intros Hp. destruct (run_frame calls st) as (st' & Hr & _ & _ & Hp').
  rewrite Hr. now apply Hp'.
Qed.

Lemma programs_leave_stream_flushed_witness :
  pending (cout initial_State) = "" /\
  pending (cout (snd (run [CallLog INFO "Hello, World!" [];
                           CallInitialise opts;
                           CallLogValue (arg 1%Z) []] initial_State))) = "".
Proof.
  assert (H : pending (cout initial_State) = "") by reflexivity.
  split; [exact H |].
  exact (programs_leave_stream_flushed
           [CallLog INFO "Hello, World!" []; CallInitialise opts;
            CallLogValue (arg 1%Z) []] initial_State H).
Defined.

(** X13.  When the marker does not occur in the configured prompt, the
    severity has no part in what [log] writes: for every severity the line
    is the prompt followed by the substituted message. *)
Theorem log_without_marker_ignores_severity
        (sev : Severity) (fmt : string) (args : list Arg) (st : State) :
  ~ occurs REPLACE_STR (prompt (m_options st)) ->
  log sev fmt args st =
  (Returns tt,
   line_written
     (prompt (m_options st) ++
      substitute (formatChar (m_options st)) fmt (map render args)) st).
Proof.
  intros Hno. destruct (log_run sev fmt args st) as (p & Hp & ->).
  rewrite (m_preparePrompt_plain _ _ Hno) in Hp.
  now injection Hp as <-.
Qed.

Lemma log_without_marker_ignores_severity_witness :
  ~ occurs REPLACE_STR (prompt (m_options initial_State)) /\
  log FATAL "Value: @" [arg 42%Z] initial_State =
  (Returns tt, line_written ("" ++ "Value: 42") initial_State).
Proof.
  assert (H : ~ occurs REPLACE_STR (prompt (m_options initial_State)))
    by (apply find_None; reflexivity).
  split; [exact H |].
  exact (log_without_marker_ignores_severity
           FATAL "Value: @" [arg 42%Z] initial_State H).
Defined.

(** X14.  When the marker occurs in the configured prompt, [log] does
    not write the same line for two different severities, whatever the
    message and its arguments. *)
Theorem log_lines_tell_severities_apart
        (sev1 sev2 : Severity) (fmt : string) (args : list Arg)
        (st : State) :
  occurs REPLACE_STR (prompt (m_options st)) ->
  sev1 <> sev2 ->
  log sev1 fmt args st <> log sev2 fmt args st.
Proof.
  intros Hocc Hneq Heq. apply Hneq.
  assert (Hfirst : exists pre post,
             first_occurrence REPLACE_STR (prompt (m_options st)) pre post).
  { destruct (find REPLACE_STR (prompt (m_options st))) as [pos|] eqn:Hf.
    - destruct (find_Some _ _ _ Hf) as [_ Hfirst]. eauto.
    - now apply find_None in Hf. }
  destruct Hfirst as (pre & post & Hfirst).
  rewrite !(log_marker _ _ _ _ _ _ Hfirst) in Heq.
  injection Heq as Heq.
  rewrite !append_assoc in Heq.
  apply append_cancel_l, append_cancel_l, append_cancel_r in Heq.
  now apply severityString_inj.
Qed.

Lemma log_lines_tell_severities_apart_witness :
  occurs REPLACE_STR (prompt (m_options (configured_State PROMPT "@"))) /\
  INFO <> WARNING /\
  log INFO "Hello, World!" [] (configured_State PROMPT "@") <>
  log WARNING "Hello, World!" [] (configured_State PROMPT "@").
Proof.
  assert (H1 : occurs REPLACE_STR
                 (prompt (m_options (configured_State PROMPT "@"))))
    by (exists " * tiny (", ") | "; reflexivity).
  assert (H2 : INFO <> WARNING) by discriminate.
  split; [exact H1 |]. split; [exact H2 |].
  exact (log_lines_tell_severities_apart
           INFO WARNING "Hello, World!" [] (configured_State PROMPT "@")
           H1 H2).
Defined.
